(** * libvscode-diff: the public entry point [diff_api.c] / [diff_api.h]

  The translation unit exports one function,

    const char *diff_api_get_version(void) { return "0.3.0"; }

  This development gives C strings, pointers into string literals and
  function calls a small executable model, embeds the function in it and
  proves what callers across the FFI boundary rely on. *)

From Stdlib Require Import ZArith List String Ascii Bool Lia.
Import ListNotations.

Local Open Scope Z_scope.

(* ================================================================== *)
(** ** C characters, string literals and pointers to them *)

Module CStr.

(** A [char] holds one byte; its value is kept as an integer in 0..255. *)
Definition char : Type := Z.

Definition NUL : char := 0.

Definition char_of_ascii (a : ascii) : char := Z.of_N (N_of_ascii a).

Fixpoint chars_of_string (s : string) : list char :=
  match s with
  | EmptyString => []
  | String a r => char_of_ascii a :: chars_of_string r
  end.

(** A string literal denotes an array with static storage duration that
    holds the literal's characters followed by one zero byte. *)
Definition literal_object (s : string) : list char :=
  chars_of_string s ++ [NUL].

(** A [const char *] value: the null pointer, or the address of element
    [ofs] of the array of a string literal.  The array is part of the
    program image; no operation of the model writes to it. *)
Inductive pointer : Type :=
| NULL
| StrLit (s : string) (ofs : nat).

Definition is_null (p : pointer) : bool :=
  match p with
  | NULL => true
  | StrLit _ _ => false
  end.

(** [index p i] is the C expression [p[i]]: [None] where the access is
    undefined (null pointer, or past the end of the array). *)
Definition index (p : pointer) (i : nat) : option char :=
  match p with
  | NULL => None
  | StrLit s ofs => nth_error (literal_object s) (ofs + i)
  end.

(** [deref p] is [*p]. *)
Definition deref (p : pointer) : option char := index p 0.

(** The characters of [l] before its first zero byte; [None] when [l]
    holds no zero byte, that is when a reader would run off the array. *)
Fixpoint until_nul (l : list char) : option (list char) :=
  match l with
  | [] => None
  | c :: r =>
      if c =? NUL then Some []
      else match until_nul r with
           | Some t => Some (c :: t)
           | None => None
           end
  end.

(** The C string a pointer designates, as a caller reads it byte by byte
    up to the terminator. *)
Definition c_str (p : pointer) : option (list char) :=
  match p with
  | NULL => None
  | StrLit s ofs => until_nul (skipn ofs (literal_object s))
  end.

(** [strlen(p)]. *)
Definition strlen (p : pointer) : option nat :=
  match c_str p with
  | Some bs => Some (List.length bs)
  | None => None
  end.

(** *** Character classes *)

Definition is_ascii (c : char) : bool := (0 <=? c) && (c <=? 127).

Definition is_digit (c : char) : bool := (48 <=? c) && (c <=? 57).

Definition DOT : char := 46.

(** Continuation byte of a multi-byte UTF-8 sequence, within [lo..hi]. *)
Definition within (lo hi c : char) : bool := (lo <=? c) && (c <=? hi).

Definition cont (c : char) : bool := within 128 191 c.

(** Well-formed UTF-8 byte sequences (the table of RFC 3629, section 4:
    no overlong forms, no surrogates, nothing above U+10FFFF). *)
Fixpoint utf8_valid (l : list char) : bool :=
  match l with
  | [] => true
  | b0 :: r0 =>
      if within 0 127 b0 then utf8_valid r0
      else
        match r0 with
        | [] => false
        | b1 :: r1 =>
            if within 194 223 b0 then cont b1 && utf8_valid r1
            else
              match r1 with
              | [] => false
              | b2 :: r2 =>
                  if within 224 224 b0
                  then within 160 191 b1 && cont b2 && utf8_valid r2
                  else if within 225 236 b0 || within 238 239 b0
                  then cont b1 && cont b2 && utf8_valid r2
                  else if within 237 237 b0
                  then within 128 159 b1 && cont b2 && utf8_valid r2
                  else
                    match r2 with
                    | [] => false
                    | b3 :: r3 =>
                        if within 240 240 b0
                        then within 144 191 b1 && cont b2 && cont b3
                             && utf8_valid r3
                        else if within 241 243 b0
                        then cont b1 && cont b2 && cont b3 && utf8_valid r3
                        else if within 244 244 b0
                        then within 128 143 b1 && cont b2 && cont b3
                             && utf8_valid r3
                        else false
                    end
              end
        end
  end.

(** *** The shape MAJOR.MINOR.PATCH *)

(** The fields of [l] between occurrences of [sep]; a list with [n]
    separators has [n + 1] fields. *)
Fixpoint split_on (sep : char) (l : list char) : list (list char) :=
  match l with
  | [] => [[]]
  | c :: r =>
      if c =? sep then [] :: split_on sep r
      else match split_on sep r with
           | f :: fs => (c :: f) :: fs
           | [] => [[c]]
           end
  end.

(** A non-empty run of decimal digits. *)
Definition numeric (l : list char) : bool :=
  match l with
  | [] => false
  | _ :: _ => forallb is_digit l
  end.

Definition is_semver (l : list char) : bool :=
  match split_on DOT l with
  | [major; minor; patch] => numeric major && numeric minor && numeric patch
  | _ => false
  end.

(** The inverse of [split_on]: the fields with [sep] between them. *)
Fixpoint join_with (sep : char) (fs : list (list char)) : list char :=
  match fs with
  | [] => []
  | f :: rest =>
      match rest with
      | [] => f
      | _ :: _ => f ++ sep :: join_with sep rest
      end
  end.

(** The same shape, stated by decomposition. *)
Definition digits (l : list char) : Prop :=
  l <> [] /\ Forall (fun c => 48 <= c <= 57) l.

Definition semver_shaped (l : list char) : Prop :=
  exists major minor patch,
    l = major ++ DOT :: minor ++ DOT :: patch
    /\ digits major /\ digits minor /\ digits patch.

End CStr.

(* ================================================================== *)
(** ** Calls: state passing with abnormal termination *)

Module Call.

(** The ways a C call can end other than by returning to its caller. *)
Inductive fault : Type :=
| Undefined                (* undefined behaviour, e.g. an invalid access *)
| Signalled (sig : Z)      (* abort(), raise(), a trap *)
| Exited (status : Z).     (* exit() *)

Section World.

(** Everything a call could observe or change: heap, globals, [errno],
    open streams.  The API is stated for any such state. *)
Variable World : Type.

Inductive outcome (A : Type) : Type :=
| Returns (a : A) (w : World)
| Faults (f : fault).

Definition C (A : Type) : Type := World -> outcome A.

Definition ret {A : Type} (a : A) : C A := fun w => Returns A a w.

Definition bind {A B : Type} (m : C A) (k : A -> C B) : C B :=
  fun w =>
    match m w with
    | Returns _ a w' => k a w'
    | Faults _ f => Faults B f
    end.

End World.

Arguments Returns {World A} a w.
Arguments Faults {World A} f.
Arguments ret {World A} a _.
Arguments bind {World A B} m k _.

Notation "x <- m ;; k" := (bind m (fun x => k))
  (at level 61, m at next level, right associativity).

End Call.

(* ================================================================== *)
(** ** diff_api.c *)

Module DiffApi.
Import CStr Call.

Section Source.
Context {World : Type}.

(** [const char *diff_api_get_version(void) { return "0.3.0"; }] *)
Definition diff_api_get_version : C World pointer :=
  ret (StrLit "0.3.0"%string 0).

(** [n] calls one after the other, each in the state the previous one
    left; the results in call order. *)
Fixpoint call_times (n : nat) : C World (list pointer) :=
  match n with
  | O => ret []
  | S k =>
      p <- diff_api_get_version ;;
      ps <- call_times k ;;
      ret (p :: ps)
  end.

End Source.

End DiffApi.

(* ================================================================== *)
(** ** Facts about C strings *)

Module CStrFacts.
Import CStr.

Lemma until_nul_sound (l bs : list char) :
  until_nul l = Some bs ->
  exists rest, l = bs ++ NUL :: rest /\ ~ In NUL bs.
Proof.
  revert bs; induction l as [|c r IH]; intros bs H; simpl in H.
  - discriminate.
  - destruct (c =? NUL) eqn:E.
    + apply Z.eqb_eq in E; subst c.
      injection H as <-. exists r; split; [reflexivity | intros []].
    + apply Z.eqb_neq in E.
      destruct (until_nul r) as [t|]; [|discriminate].
      injection H as <-.
      destruct (IH t eq_refl) as (rest & -> & Hnot).
      exists rest; split; [reflexivity|].
      intros [Hc | Hin]; [congruence | exact (Hnot Hin)].
Qed.

Lemma until_nul_complete (bs rest : list char) :
  ~ In NUL bs -> until_nul (bs ++ NUL :: rest) = Some bs.
Proof.
  induction bs as [|c t IH]; intros Hnot; simpl.
  - reflexivity.
  - destruct (c =? NUL) eqn:E.
    + apply Z.eqb_eq in E. exfalso; apply Hnot; left; congruence.
    + rewrite IH; [reflexivity|]. intros Hin; apply Hnot; right; exact Hin.
Qed.

(** Reading a C string touches only defined elements: [p[i]] is the i-th
    character for every [i] below the length, and [p[strlen p]] is the
    terminator. *)
Lemma c_str_index (p : pointer) (bs : list char) :
  c_str p = Some bs ->
  index p (List.length bs) = Some NUL
  /\ forall i, (i < List.length bs)%nat -> index p i = nth_error bs i.
Proof.
  destruct p as [|s ofs]; simpl; [discriminate|].
  intros H. apply until_nul_sound in H as (rest & Hl & _).
  assert (Hn : forall i, nth_error (literal_object s) (ofs + i)
                         = nth_error (bs ++ NUL :: rest) i).
  { intros i. rewrite <- Hl. symmetry. apply nth_error_skipn. }
  split.
  - rewrite Hn, nth_error_app2 by lia.
    replace (List.length bs - List.length bs)%nat with 0%nat by lia.
    reflexivity.
  - intros i Hi. rewrite Hn. apply nth_error_app1; exact Hi.
Qed.

Lemma c_str_not_null (p : pointer) (bs : list char) :
  c_str p = Some bs -> p <> NULL.
Proof. intros H ->; discriminate H. Qed.

(** Seven-bit text is well-formed UTF-8. *)
Lemma ascii_utf8_valid (l : list char) :
  forallb is_ascii l = true -> utf8_valid l = true.
Proof.
  induction l as [|c r IH]; simpl; intros H.
  - reflexivity.
  - apply andb_true_iff in H as [Hc Hr].
    unfold is_ascii in Hc. unfold within. rewrite Hc. exact (IH Hr).
Qed.

(** *** Splitting into fields *)

Lemma split_on_not_nil (sep : char) (l : list char) : split_on sep l <> [].
Proof.
  destruct l as [|c r]; simpl; [discriminate|].
  destruct (c =? sep); [discriminate|].
  destruct (split_on sep r); discriminate.
Qed.

Lemma join_split_on (sep : char) (l : list char) :
  join_with sep (split_on sep l) = l.
Proof.
  induction l as [|c r IH]; [reflexivity|].
  cbn [split_on].
  destruct (c =? sep) eqn:E.
  - apply Z.eqb_eq in E; subst c.
    pose proof (split_on_not_nil sep r) as Hne.
    cbn [join_with]. destruct (split_on sep r) as [|f fs]; [congruence|].
    rewrite IH. reflexivity.
  - pose proof (split_on_not_nil sep r) as Hne.
    destruct (split_on sep r) as [|f fs]; [congruence|].
    cbn [join_with] in *. destruct fs; rewrite <- IH; reflexivity.
Qed.

Lemma split_on_field (sep : char) (f : list char) :
  ~ In sep f -> split_on sep f = [f].
Proof.
  induction f as [|c t IH]; intros Hnot; [reflexivity|].
  cbn [split_on].
  destruct (c =? sep) eqn:E.
  - apply Z.eqb_eq in E. exfalso; apply Hnot; left; exact E.
  - rewrite IH; [reflexivity|]. intros Hin; apply Hnot; right; exact Hin.
Qed.

Lemma split_on_app (sep : char) (f r : list char) :
  ~ In sep f -> split_on sep (f ++ sep :: r) = f :: split_on sep r.
Proof.
  induction f as [|c t IH]; intros Hnot.
  - cbn [app split_on]. rewrite Z.eqb_refl. reflexivity.
  - cbn [app split_on].
    destruct (c =? sep) eqn:E.
    + apply Z.eqb_eq in E. exfalso; apply Hnot; left; exact E.
    + rewrite IH; [reflexivity|]. intros Hin; apply Hnot; right; exact Hin.
Qed.

Lemma is_digit_iff (c : char) : is_digit c = true <-> 48 <= c <= 57.
Proof. unfold is_digit. rewrite andb_true_iff, !Z.leb_le. reflexivity. Qed.

Lemma numeric_iff (l : list char) : numeric l = true <-> digits l.
Proof.
  unfold numeric, digits. destruct l as [|c r].
  - split; [discriminate | intros [H _]; congruence].
  - rewrite forallb_forall, Forall_forall. split.
    + intros H; split; [discriminate|].
      intros x Hx. apply is_digit_iff, H, Hx.
    + intros [_ H] x Hx. apply is_digit_iff, H, Hx.
Qed.

Lemma digits_no_dot (l : list char) : digits l -> ~ In DOT l.
Proof.
  intros [_ H] Hin. rewrite Forall_forall in H.
  specialize (H _ Hin). unfold DOT in H. lia.
Qed.

(** The executable check decides the shape MAJOR.MINOR.PATCH. *)
Lemma is_semver_iff (l : list char) : is_semver l = true <-> semver_shaped l.
Proof.
  unfold is_semver, semver_shaped. split.
  - intros H. pose proof (join_split_on DOT l) as J.
    destruct (split_on DOT l) as [|a [|b [|c [|d fs]]]]; try discriminate.
    apply andb_true_iff in H as [H Hc]. apply andb_true_iff in H as [Ha Hb].
    exists a, b, c. cbn [join_with] in J.
    rewrite <- J. repeat split; try reflexivity; now apply numeric_iff.
  - intros (a & b & c & -> & Ha & Hb & Hc).
    rewrite split_on_app by now apply digits_no_dot.
    rewrite split_on_app by now apply digits_no_dot.
    rewrite split_on_field by now apply digits_no_dot.
    apply numeric_iff in Ha, Hb, Hc. rewrite Ha, Hb, Hc. reflexivity.
Qed.

(** A string of that shape holds exactly two dots. *)
Lemma semver_shaped_two_dots (l : list char) :
  semver_shaped l -> count_occ Z.eq_dec l DOT = 2%nat.
Proof.
  intros (a & b & c & -> & Ha & Hb & Hc).
  apply digits_no_dot in Ha, Hb, Hc.
  unfold char in *.
  rewrite (count_occ_not_In Z.eq_dec) in Ha, Hb, Hc.
  rewrite count_occ_app, count_occ_cons_eq by reflexivity.
  rewrite count_occ_app, count_occ_cons_eq by reflexivity.
  rewrite Ha, Hb, Hc. reflexivity.
Qed.

End CStrFacts.

(* ================================================================== *)
(** ** The contract of [diff_api_get_version] *)

Module DiffApiSpec.
Import CStr Call DiffApi CStrFacts.

Section Contract.
Context {World : Type}.

(** One call: the value returned and the state left behind. *)
Lemma get_version_call (w : World) :
  diff_api_get_version w = Returns (StrLit "0.3.0"%string 0) w.
Proof. reflexivity. Qed.

(** [n] calls in sequence. *)
Lemma call_times_calls (n : nat) (w : World) :
  call_times n w = Returns (repeat (StrLit "0.3.0"%string 0) n) w.
Proof.
  induction n as [|k IH]; [reflexivity|].
  cbn [call_times repeat]. unfold bind at 1.
  rewrite get_version_call. unfold bind at 1. rewrite IH. reflexivity.
Qed.

(** C1.  A call of [diff_api_get_version] returns a pointer to the string
    "0.3.0": read up to its terminator it is exactly the five characters
    '0', '.', '3', '.', '0'. *)
Theorem get_version_exact (w : World) :
  exists p w',
    diff_api_get_version w = Returns p w'
    /\ c_str p = Some (chars_of_string "0.3.0")
    /\ c_str p = Some (map char_of_ascii ["0"; "."; "3"; "."; "0"]%char).
Proof.
  eexists; eexists; split; [apply get_version_call|].
  split; reflexivity.
Qed.

(** C2.  [diff_api_get_version] is deterministic: two calls, whatever the
    states they are made in, return pointers to byte-for-byte identical
    strings. *)
Theorem get_version_deterministic (w1 w2 : World) :
  exists p1 w1' p2 w2' bs,
    diff_api_get_version w1 = Returns p1 w1'
    /\ diff_api_get_version w2 = Returns p2 w2'
    /\ c_str p1 = Some bs
    /\ c_str p2 = Some bs.
Proof.
  exists (StrLit "0.3.0"%string 0), w1, (StrLit "0.3.0"%string 0), w2.
  exists (chars_of_string "0.3.0").
  split; [apply get_version_call|]. split; [apply get_version_call|].
  split; reflexivity.
Qed.

(** C3.  [diff_api_get_version] is total and cannot fail: in every state the
    call returns to its caller, and it ends in no fault (no undefined
    behaviour, no signal, no exit). *)
Theorem get_version_total (w : World) :
  (exists p w', diff_api_get_version w = Returns p w')
  /\ (forall f, diff_api_get_version w <> Faults f).
Proof.
  split.
  - exists (StrLit "0.3.0"%string 0), w. apply get_version_call.
  - intros f H. rewrite get_version_call in H. discriminate H.
Qed.

(** C4.  The string returned by a call is non-empty: it has at least one
    character before its terminator. *)
Theorem get_version_nonempty (w : World) :
  exists p w' bs,
    diff_api_get_version w = Returns p w'
    /\ c_str p = Some bs
    /\ (1 <= List.length bs)%nat.
Proof.
  exists (StrLit "0.3.0"%string 0), w.
  destruct (c_str (StrLit "0.3.0"%string 0)) as [bs|] eqn:E;
    [|discriminate E].
  exists bs. split; [apply get_version_call|]. split; [reflexivity|].
  injection E as <-. simpl. lia.
Qed.

(** C5.  The string returned has the shape MAJOR.MINOR.PATCH: three
    non-empty runs of decimal digits separated by exactly two dots. *)
Theorem get_version_semver (w : World) :
  exists p w' bs,
    diff_api_get_version w = Returns p w'
    /\ c_str p = Some bs
    /\ semver_shaped bs
    /\ count_occ Z.eq_dec bs DOT = 2%nat.
Proof.
  exists (StrLit "0.3.0"%string 0), w. eexists.
  split; [apply get_version_call|]. split; [vm_compute; reflexivity|].
  assert (S : semver_shaped [48; 46; 51; 46; 48]).
  { apply is_semver_iff. reflexivity. }
  split; [exact S | exact (semver_shaped_two_dots _ S)].
Qed.

(** C6.  [diff_api_get_version] has no side effect: the state after a call
    is the state before it, and so it is after any number of calls in
    sequence. *)
Theorem get_version_frame (n : nat) (w : World) :
  (exists p, diff_api_get_version w = Returns p w)
  /\ (exists ps, call_times n w = Returns ps w /\ List.length ps = n).
Proof.
  split.
  - eexists. apply get_version_call.
  - eexists. split; [apply call_times_calls | apply repeat_length].
Qed.

(** C7.  The value returned is null-terminated ASCII text: every character
    of the string is a seven-bit code, the element after the last character
    is the zero byte, and the text is therefore well-formed UTF-8. *)
Theorem get_version_ascii_nul_terminated (w : World) :
  exists p w' bs,
    diff_api_get_version w = Returns p w'
    /\ c_str p = Some bs
    /\ forallb is_ascii bs = true
    /\ index p (List.length bs) = Some NUL
    /\ utf8_valid bs = true.
Proof.
  exists (StrLit "0.3.0"%string 0), w.
  destruct (c_str (StrLit "0.3.0"%string 0)) as [bs|] eqn:E;
    [|discriminate E].
  exists bs. split; [apply get_version_call|]. split; [reflexivity|].
  assert (A : forallb is_ascii bs = true).
  { injection E as <-. reflexivity. }
  split; [exact A|]. split.
  - apply (c_str_index _ _ E).
  - apply ascii_utf8_valid, A.
Qed.

(** C9.  [diff_api_get_version] never returns a null pointer, and
    dereferencing the pointer it returns is defined. *)
Theorem get_version_not_null (w : World) :
  exists p w' c,
    diff_api_get_version w = Returns p w'
    /\ p <> NULL
    /\ is_null p = false
    /\ deref p = Some c.
Proof.
  exists (StrLit "0.3.0"%string 0), w. eexists.
  split; [apply get_version_call|]. split.
  - apply (c_str_not_null _ (chars_of_string "0.3.0")). reflexivity.
  - split; reflexivity.
Qed.

(** C10.  The string returned has length exactly 5, the terminator not
    counted. *)
Theorem get_version_strlen (w : World) :
  exists p w',
    diff_api_get_version w = Returns p w'
    /\ strlen p = Some 5%nat.
Proof.
  eexists; eexists. split; [apply get_version_call | reflexivity].
Qed.

End Contract.

(** The model runs: two calls in a process whose only state is [errno],
    here 7. *)
Example two_calls_run :
  call_times 2 (7 : Z)
  = Returns [StrLit "0.3.0"%string 0; StrLit "0.3.0"%string 0] 7.
Proof. reflexivity. Qed.

(** A pointer past the terminator designates no string, and the shape check
    rejects near misses; neither holds of everything. *)
Example reads_and_rejections :
  c_str (StrLit "0.3.0"%string 6) = None
  /\ c_str (StrLit "0.3.0"%string 2) = Some [51; 46; 48]
  /\ is_semver [48; 46; 51] = false
  /\ is_semver [48; 46; 51; 46] = false
  /\ is_semver [48; 46; 51; 46; 118] = false
  /\ utf8_valid [192; 128] = false.
Proof. repeat split. Qed.

End DiffApiSpec.
